(** * Tea management API (src/index.js): a shallow embedding

    The Express application keeps two module-level variables,
    [teaData] (an array of tea objects) and [nextId] (a counter), and five
    route handlers that read and mutate them.  We model the module state as
    a record, each handler as a function from the state and the request to
    the new state and the response, and a server run as the left fold of
    the handler over a sequence of requests.

    Modelling choices, each one documented where it is used:
    - JavaScript numbers used as ids are modelled as [Z]: the ids are
      produced by [nextId++] from 1 and stay far below 2^53, where doubles
      are exact.
    - Strings are Stdlib [string]s (ASCII characters).
    - The request body is the object delivered by [express.json()]; the
      handlers only read properties of it. *)

From Stdlib Require Import List ZArith String Ascii Bool Lia.
From Stdlib Require Import Sorting.Sorted.
Import ListNotations.
Set Warnings "-register-all".
Open Scope Z_scope.

(** ** JavaScript values *)

(** The values a parsed JSON body may hold.  Numbers carry an integer
    payload: the handlers never inspect [name] or [price], they only copy
    them, so the payload only has to be distinguishable. *)
Inductive jsval : Type :=
| JUndefined
| JNull
| JBool (b : bool)
| JNum (n : Z)
| JStr (s : string)
| JArr (xs : list jsval)
| JObj (props : list (string * jsval)).

(** A JSON object as produced by [JSON.parse]: its own properties in
    order, each key once. *)
Definition jsobj := list (string * jsval).

(** Property read [o.k] (also what destructuring [const {k} = o] does):
    a missing property reads as [undefined]; [Object.prototype] has no
    [name], [price] or [id] property. *)
Fixpoint get_prop (o : jsobj) (k : string) : jsval :=
  match o with
  | [] => JUndefined
  | (k', v) :: o' => if String.eqb k k' then v else get_prop o' k
  end.

(** ** Tea objects and the module state *)

(** [{ id, name, price }] as built in the POST handler. *)
Record tea : Type := mkTea {
  id : Z;
  name : jsval;
  price : jsval
}.

(** [let teaData = []; let nextId = 1;] *)
Record state : Type := mkState {
  teaData : list tea;
  nextId : Z
}.

Definition init : state := {| teaData := []; nextId := 1 |}.

(** ** [parseInt] without a radix argument (ECMA-262, 19.2.5)

    [None] stands for [NaN].  The white space stripped first is the ASCII
    part of StrWhiteSpaceChar (tab, LF, VT, FF, CR, space). *)

Definition is_js_space (c : ascii) : bool :=
  let n := nat_of_ascii c in
  (Nat.eqb n 9 || Nat.eqb n 10 || Nat.eqb n 11 || Nat.eqb n 12
   || Nat.eqb n 13 || Nat.eqb n 32)%bool.

Fixpoint trim_start (s : string) : string :=
  match s with
  | EmptyString => EmptyString
  | String c s' => if is_js_space c then trim_start s' else s
  end.

(** The value of [c] as a digit in radix [r] (10 or 16), if it is one. *)
Definition digit_value (r : Z) (c : ascii) : option Z :=
  let n := Z.of_nat (nat_of_ascii c) in
  let v :=
    if (48 <=? n) && (n <=? 57) then Some (n - 48)
    else if (97 <=? n) && (n <=? 122) then Some (n - 87)
    else if (65 <=? n) && (n <=? 90) then Some (n - 55)
    else None in
  match v with
  | Some d => if d <? r then Some d else None
  | None => None
  end.

(** The longest prefix of radix-[r] digits: its value (accumulated onto
    [acc]) and whether it is non-empty. *)
Fixpoint digits_prefix (r : Z) (s : string) (acc : Z) (seen : bool)
  : Z * bool :=
  match s with
  | EmptyString => (acc, seen)
  | String c s' =>
      match digit_value r c with
      | Some d => digits_prefix r s' (acc * r + d) true
      | None => (acc, seen)
      end
  end.

Definition parseInt (input : string) : option Z :=
  let S0 := trim_start input in
  let '(sign, S1) :=
    match S0 with
    | String "-"%char s' => (-1, s')
    | String "+"%char s' => (1, s')
    | _ => (1, S0)
    end in
  let '(R, S2) :=
    match S1 with
    | String "0"%char (String c s') =>
        if (Ascii.eqb c "x"%char || Ascii.eqb c "X"%char)%bool
        then (16, s') else (10, S1)
    | _ => (10, S1)
    end in
  match digits_prefix R S2 0 false with
  | (_, false) => None
  | (v, true) => Some (sign * v)
  end.

(** [t.id === parseInt(req.params.id)]: [t.id] is a number, and [NaN] is
    strictly equal to nothing ([-0 === 0] holds, so the sign of zero does
    not matter). *)
Definition id_matches (p : string) (t : tea) : bool :=
  match parseInt p with
  | Some n => Z.eqb (id t) n
  | None => false
  end.

(** ** Array methods *)

(** [Array.prototype.find]: the first element satisfying [f]. *)
Fixpoint find {A} (f : A -> bool) (l : list A) : option A :=
  match l with
  | [] => None
  | x :: l' => if f x then Some x else find f l'
  end.

(** [Array.prototype.findIndex]: index of the first element satisfying
    [f], or [-1]. *)
Fixpoint findIndex {A} (f : A -> bool) (l : list A) : Z :=
  match l with
  | [] => -1
  | x :: l' => if f x then 0 else
                 let i := findIndex f l' in if i =? -1 then -1 else i + 1
  end.

(** [a.splice(i, 1)] for [0 <= i < a.length]: removes the element at
    index [i], shifting the rest down. *)
Definition splice1 {A} (l : list A) (i : Z) : list A :=
  firstn (Z.to_nat i) l ++ skipn (S (Z.to_nat i)) l.

(** The PUT handler assigns to the object [find] returned.  Every element
    of [teaData] is a distinct object, built by its own POST and referenced
    by the array alone, so mutating the first element that satisfies [f]
    in place is replacing that element by its updated copy. *)
Fixpoint mutate_found {A} (f : A -> bool) (g : A -> A) (l : list A) : list A :=
  match l with
  | [] => []
  | x :: l' => if f x then g x :: l' else x :: mutate_found f g l'
  end.

(** ** Responses *)

Inductive payload : Type :=
| PTea (t : tea)
| PTeas (ts : list tea)
| PText (s : string).

(** [body = None] is an empty body. *)
Record response : Type := mkResponse {
  status : Z;
  body : option payload
}.

(** [res.status(code).send(p)]: Express's [res.send] drops the body of a
    204 or 304 response ([chunk = ''] in lib/response.js), and Node sends
    no body with them. *)
Definition send (code : Z) (p : payload) : response :=
  {| status := code;
     body := if (code =? 204) || (code =? 304) then None else Some p |}.

(** ** Requests and route handlers *)

Inductive request : Type :=
| PostTeas (b : jsobj)              (** POST /teas *)
| GetTeas                           (** GET /teas *)
| GetTea (p : string)               (** GET /teas/:id *)
| PutTea (p : string) (b : jsobj)   (** PUT /teas/:id *)
| DeleteTea (p : string).           (** DELETE /teas/:id *)

(** app.post("/teas") *)
Definition post_teas (s : state) (b : jsobj) : state * response :=
  let newTea := {| id := nextId s;
                   name := get_prop b "name";
                   price := get_prop b "price" |} in
  ({| teaData := teaData s ++ [newTea]; nextId := nextId s + 1 |},
   send 201 (PTea newTea)).

(** app.get("/teas") *)
Definition get_teas (s : state) : state * response :=
  (s, send 200 (PTeas (teaData s))).

(** app.get("/teas/:id") *)
Definition get_tea (s : state) (p : string) : state * response :=
  match find (id_matches p) (teaData s) with
  | None => (s, send 404 (PText "tea not found "))
  | Some tea => (s, send 200 (PTea tea))
  end.

(** app.put("/teas/:id") *)
Definition put_tea (s : state) (p : string) (b : jsobj) : state * response :=
  match find (id_matches p) (teaData s) with
  | None => (s, send 404 (PText "tea not found "))
  | Some tea =>
      let upd := fun t => {| id := id t;
                             name := get_prop b "name";
                             price := get_prop b "price" |} in
      ({| teaData := mutate_found (id_matches p) upd (teaData s);
          nextId := nextId s |},
       send 200 (PTea (upd tea)))
  end.

(** app.delete("/teas/:id") *)
Definition delete_tea (s : state) (p : string) : state * response :=
  let index := findIndex (id_matches p) (teaData s) in
  if index =? -1 then (s, send 404 (PText "tea not found"))
  else ({| teaData := splice1 (teaData s) index; nextId := nextId s |},
        send 204 (PText "deleted ")).

Definition handle (s : state) (r : request) : state * response :=
  match r with
  | PostTeas b => post_teas s b
  | GetTeas => get_teas s
  | GetTea p => get_tea s p
  | PutTea p b => put_tea s p b
  | DeleteTea p => delete_tea s p
  end.

(** The server handling requests one after the other. *)
Fixpoint run (s : state) (rs : list request) : state * list response :=
  match rs with
  | [] => (s, [])
  | r :: rs' =>
      let '(s1, out) := handle s r in
      let '(s2, outs) := run s1 rs' in
      (s2, out :: outs)
  end.

Example parseInt_examples :
  parseInt "12" = Some 12 /\ parseInt "  -7" = Some (-7) /\
  parseInt "1abc" = Some 1 /\ parseInt "0x1A" = Some 26 /\
  parseInt "abc" = None /\ parseInt "" = None /\ parseInt "1.5" = Some 1.
Proof. repeat split; reflexivity. Qed.

(** ** Reachable states, the store invariant, and the created ids *)

Definition reachable (s : state) : Prop := exists rs, fst (run init rs) = s.

(** Ids in [teaData] strictly increase along the array (so no two records
    share one), all lie in [1, nextId), and [nextId] is at least 1. *)
Definition Inv (s : state) : Prop :=
  StronglySorted Z.lt (map id (teaData s)) /\
  Forall (fun i => 1 <= i < nextId s) (map id (teaData s)) /\
  1 <= nextId s.

(** The ids of the records returned by the creations (the 201
    responses) among the responses [out]. *)
Definition created (out : list response) : list Z :=
  flat_map (fun r => if status r =? 201 then
                       match body r with Some (PTea t) => [id t] | _ => [] end
                     else []) out.

Definition is_post (r : request) : bool :=
  match r with PostTeas _ => true | _ => false end.

Definition is_delete (r : request) : bool :=
  match r with DeleteTea _ => true | _ => false end.

Definition is_get (r : request) : bool :=
  match r with GetTeas | GetTea _ => true | _ => false end.

Definition posts (rs : list request) : nat := List.length (filter is_post rs).

(** ** Lemmas on the array methods *)

Section ArrayMethods.
Context {A : Type}.
Variable f : A -> bool.

Lemma find_none (l : list A) :
  find f l = None -> forall x, In x l -> f x = false.
Proof.
  induction l as [|y l IH]; simpl; [tauto|].
  destruct (f y) eqn:Hy; [discriminate|].
  intros H x [<-|Hx]; auto.
Qed.

Lemma find_none_intro (l : list A) :
  (forall x, In x l -> f x = false) -> find f l = None.
Proof.
  induction l as [|y l IH]; simpl; intros H; [reflexivity|].
  rewrite (H y (or_introl eq_refl)). apply IH. auto.
Qed.

Lemma find_some (l : list A) x :
  find f l = Some x ->
  exists l1 l2, l = l1 ++ x :: l2 /\ f x = true /\
                forall y, In y l1 -> f y = false.
Proof.
  induction l as [|y l IH]; simpl; [discriminate|].
  destruct (f y) eqn:Hy.
  - intros [= <-]. exists [], l. simpl. repeat split; auto. intros _ [].
  - intros H. destruct (IH H) as (l1 & l2 & -> & Hx & Hl1).
    exists (y :: l1), l2. simpl. repeat split; auto.
    intros z [<-|Hz]; auto.
Qed.

Lemma find_split (l1 l2 : list A) x :
  f x = true -> (forall y, In y l1 -> f y = false) ->
  find f (l1 ++ x :: l2) = Some x.
Proof.
  induction l1 as [|y l1 IH]; simpl; intros Hx Hl1.
  - now rewrite Hx.
  - rewrite (Hl1 y (or_introl eq_refl)). apply IH; auto.
Qed.

Lemma findIndex_split (l1 l2 : list A) x :
  f x = true -> (forall y, In y l1 -> f y = false) ->
  findIndex f (l1 ++ x :: l2) = Z.of_nat (List.length l1).
Proof.
  induction l1 as [|y l1 IH]; simpl; intros Hx Hl1.
  - now rewrite Hx.
  - rewrite (Hl1 y (or_introl eq_refl)), IH by auto.
    destruct (Z.of_nat (List.length l1) =? -1) eqn:E; lia.
Qed.

Lemma findIndex_none (l : list A) :
  (forall x, In x l -> f x = false) -> findIndex f l = -1.
Proof.
  induction l as [|y l IH]; simpl; intros H; [reflexivity|].
  rewrite (H y (or_introl eq_refl)), IH by auto. reflexivity.
Qed.

Lemma splice1_split (l1 l2 : list A) x :
  splice1 (l1 ++ x :: l2) (Z.of_nat (List.length l1)) = l1 ++ l2.
Proof.
  unfold splice1. rewrite Nat2Z.id.
  rewrite firstn_app, skipn_app, Nat.sub_diag, firstn_all, firstn_O, app_nil_r.
  replace (S (List.length l1) - List.length l1)%nat with 1%nat by lia.
  rewrite skipn_all2 by lia. reflexivity.
Qed.

Lemma mutate_found_split (g : A -> A) (l1 l2 : list A) x :
  f x = true -> (forall y, In y l1 -> f y = false) ->
  mutate_found f g (l1 ++ x :: l2) = l1 ++ g x :: l2.
Proof.
  induction l1 as [|y l1 IH]; simpl; intros Hx Hl1.
  - now rewrite Hx.
  - rewrite (Hl1 y (or_introl eq_refl)), IH by auto. reflexivity.
Qed.

Lemma mutate_found_map {B} (h : A -> B) (g : A -> A) (l : list A) :
  (forall x, h (g x) = h x) ->
  map h (mutate_found f g l) = map h l.
Proof.
  intros Hg. induction l as [|y l IH]; simpl; [reflexivity|].
  destruct (f y); simpl; rewrite ?Hg, ?IH; reflexivity.
Qed.
End ArrayMethods.

(** ** Strictly sorted id sequences *)

Lemma ss_snoc (l : list Z) x :
  StronglySorted Z.lt l -> Forall (fun i => i < x) l ->
  StronglySorted Z.lt (l ++ [x]).
Proof.
  induction l as [|y l IH]; simpl; intros Hs Hf.
  - repeat constructor.
  - apply StronglySorted_inv in Hs as [Hs Hy]. inversion Hf; subst.
    constructor; [auto|]. apply Forall_app. split; [assumption|].
    constructor; [assumption|constructor].
Qed.

Lemma ss_remove (l1 l2 : list Z) x :
  StronglySorted Z.lt (l1 ++ x :: l2) -> StronglySorted Z.lt (l1 ++ l2).
Proof.
  induction l1 as [|y l1 IH]; simpl; intros Hs.
  - now apply StronglySorted_inv in Hs as [Hs _].
  - apply StronglySorted_inv in Hs as [Hs Hy]. constructor; [auto|].
    apply Forall_app in Hy as [H1 H2]. inversion H2; subst.
    apply Forall_app; auto.
Qed.

Lemma ss_around (l1 l2 : list Z) x :
  StronglySorted Z.lt (l1 ++ x :: l2) ->
  Forall (fun y => y < x) l1 /\ Forall (fun y => x < y) l2.
Proof.
  induction l1 as [|y l1 IH]; simpl; intros Hs.
  - apply StronglySorted_inv in Hs as [_ H]. auto.
  - apply StronglySorted_inv in Hs as [Hs Hy]. destruct (IH Hs) as [H1 H2].
    apply Forall_app in Hy as [_ Hy]. inversion Hy; subst. auto.
Qed.

(** ** Effect of each handler on the store *)

Lemma findIndex_found {A} (f : A -> bool) l :
  findIndex f l <> -1 ->
  exists l1 x l2, l = l1 ++ x :: l2 /\ f x = true /\
                  (forall y, In y l1 -> f y = false) /\
                  findIndex f l = Z.of_nat (List.length l1).
Proof.
  intros H. destruct (find f l) as [x|] eqn:E.
  - destruct (find_some f l x E) as (l1 & l2 & -> & Hx & Hl1).
    exists l1, x, l2. repeat split; auto. now apply findIndex_split.
  - exfalso. apply H, findIndex_none, find_none, E.
Qed.

(** Every request either leaves [teaData] alone, appends the new record
    (POST), rewrites one record keeping its id (PUT), or removes one
    record (DELETE); only POST touches [nextId]. *)
Lemma handle_cases s r :
  let s' := fst (handle s r) in
  (is_post r = true /\
     exists t, teaData s' = teaData s ++ [t] /\ id t = nextId s /\
               nextId s' = nextId s + 1) \/
  (is_post r = false /\ nextId s' = nextId s /\
     (map id (teaData s') = map id (teaData s) \/
      (is_delete r = true /\
       exists l1 x l2, teaData s = l1 ++ x :: l2 /\
                       teaData s' = l1 ++ l2))).
Proof.
  destruct r as [b| |p|p b|p]; simpl.
  - left. split; [reflexivity|]. eexists. repeat split.
  - right. auto.
  - right. unfold get_tea. destruct (find _ _); simpl; auto.
  - right. unfold put_tea. destruct (find _ _); simpl; repeat split; auto.
    left. apply mutate_found_map. reflexivity.
  - right. unfold delete_tea.
    destruct (findIndex (id_matches p) (teaData s) =? -1) eqn:E; simpl.
    + auto.
    + repeat split. right. split; [reflexivity|].
      apply Z.eqb_neq in E.
      destruct (findIndex_found _ _ E) as (l1 & x & l2 & Hl & _ & _ & Hi).
      rewrite Hi, Hl, splice1_split. eauto.
Qed.

Lemma Inv_init : Inv init.
Proof. unfold Inv; simpl. repeat constructor; lia. Qed.

Lemma Inv_handle s r : Inv s -> Inv (fst (handle s r)).
Proof.
  intros (Hs & Hb & Hn).
  destruct (handle_cases s r) as [(_ & t & Ht & Hid & Hnx)
                                 |(_ & Hnx & [Hm | (_ & l1 & x & l2 & Hl & Hl')])];
    unfold Inv; rewrite ?Ht, ?Hnx, ?Hm, ?Hl'.
  - rewrite map_app. simpl. rewrite Hid. repeat split.
    + apply ss_snoc; [assumption|]. eapply Forall_impl; [|exact Hb]. intros ? Ha; simpl in Ha; lia.
    + apply Forall_app. split; [|constructor; [lia|constructor]].
      eapply Forall_impl; [|exact Hb]. intros ? Ha; simpl in Ha; lia.
    + lia.
  - auto.
  - rewrite Hl in Hs, Hb. rewrite map_app in *. simpl in *.
    repeat split.
    + eapply ss_remove; eassumption.
    + apply Forall_app in Hb as [H1 H2]. inversion H2; subst.
      apply Forall_app; auto.
    + assumption.
Qed.

(** ** Runs *)

(** [a, a+1, ..., a+k-1] *)
Fixpoint zrange (a : Z) (k : nat) : list Z :=
  match k with
  | O => []
  | S k' => a :: zrange (a + 1) k'
  end.

Lemma created_cons r out : created (r :: out) = created [r] ++ created out.
Proof. unfold created. simpl. rewrite app_nil_r. reflexivity. Qed.

Lemma created_handle s r :
  created [snd (handle s r)] = if is_post r then [nextId s] else [].
Proof.
  destruct r as [b| |p|p b|p]; simpl; try reflexivity.
  - unfold get_tea. destruct (find _ _); reflexivity.
  - unfold put_tea. destruct (find _ _); reflexivity.
  - unfold delete_tea. destruct (_ =? -1); reflexivity.
Qed.

Lemma nextId_handle s r :
  nextId (fst (handle s r)) = if is_post r then nextId s + 1 else nextId s.
Proof.
  destruct (handle_cases s r) as [(Hp & _ & _ & _ & Hn)|(Hp & Hn & _)];
    rewrite Hp, Hn; reflexivity.
Qed.

Lemma run_spec s rs :
  Inv s ->
  let '(s', out) := run s rs in
  created out = zrange (nextId s) (posts rs) /\
  nextId s' = nextId s + Z.of_nat (posts rs) /\
  Inv s'.
Proof.
  revert s. induction rs as [|r rs IH]; intros s Hs; simpl.
  - split; [reflexivity|split; [lia|exact Hs]].
  - destruct (handle s r) as [s1 o] eqn:Eh.
    specialize (IH s1).
    assert (Hi : Inv s1).
    { pose proof (Inv_handle s r Hs) as H. rewrite Eh in H. exact H. }
    specialize (IH Hi). destruct (run s1 rs) as [s2 outs].
    destruct IH as (Hc & Hn & Hi2).
    pose proof (created_handle s r) as Hch. pose proof (nextId_handle s r) as Hnh.
    rewrite Eh in Hch, Hnh. cbn [fst snd] in Hch, Hnh.
    unfold posts in *. rewrite Hnh in Hc, Hn. rewrite created_cons, Hch, Hc. simpl.
    destruct (is_post r); simpl;
      (split; [reflexivity|split; [lia|exact Hi2]]).
Qed.

Lemma reachable_Inv s : reachable s -> Inv s.
Proof.
  intros [rs <-]. pose proof (run_spec init rs Inv_init) as H.
  destruct (run init rs) as [s' out]. apply H.
Qed.

Lemma run_snoc s rs r :
  fst (run s (rs ++ [r])) = fst (handle (fst (run s rs)) r).
Proof.
  revert s. induction rs as [|r' rs IH]; intros s0; simpl.
  - destruct (handle s0 r); reflexivity.
  - destruct (handle s0 r') as [s1 o]. specialize (IH s1).
    destruct (run s1 (rs ++ [r])) as [s2 o2].
    destruct (run s1 rs) as [s3 o3]. simpl in *. exact IH.
Qed.

Lemma reachable_handle s r : reachable s -> reachable (fst (handle s r)).
Proof.
  intros [rs <-]. exists (rs ++ [r]). apply run_snoc.
Qed.

(** ** Lookups by id *)

Lemma zrange_bounds a k :
  Forall (fun i => a <= i < a + Z.of_nat k) (zrange a k).
Proof.
  revert a. induction k as [|k IH]; intros a; simpl; constructor.
  - lia.
  - eapply Forall_impl; [|apply IH]. intros i Hi; simpl in Hi. lia.
Qed.

Lemma zrange_length a k : List.length (zrange a k) = k.
Proof.
  revert a. induction k as [|k IH]; intros a; simpl; [reflexivity|].
  now rewrite IH.
Qed.

Lemma zrange_sorted a k : StronglySorted Z.lt (zrange a k).
Proof.
  revert a. induction k as [|k IH]; intros a; simpl; constructor; [apply IH|].
  eapply Forall_impl; [|apply zrange_bounds]. intros i Hi; simpl in Hi. lia.
Qed.

Lemma ss_nodup (l : list Z) : StronglySorted Z.lt l -> NoDup l.
Proof.
  induction l as [|x l IH]; intros Hs; constructor.
  - apply StronglySorted_inv in Hs as [_ Hf]. intros Hx.
    rewrite Forall_forall in Hf. specialize (Hf x Hx). lia.
  - apply IH. now apply StronglySorted_inv in Hs as [Hs _].
Qed.

(** In a store satisfying [Inv], the record with a given id is the only
    one the path matches. *)
Lemma unique_match s t p :
  Inv s -> In t (teaData s) -> parseInt p = Some (id t) ->
  exists l1 l2, teaData s = l1 ++ t :: l2 /\
    (forall y, In y l1 -> id_matches p y = false) /\
    (forall y, In y l2 -> id_matches p y = false).
Proof.
  intros (Hs & _ & _) Ht Hp.
  destruct (in_split _ _ Ht) as (l1 & l2 & Hl). exists l1, l2.
  rewrite Hl, map_app in Hs. simpl in Hs.
  destruct (ss_around _ _ _ Hs) as [H1 H2].
  rewrite Forall_forall in H1, H2. unfold id_matches. rewrite Hp.
  repeat split; [assumption| |]; intros y Hy; apply Z.eqb_neq.
  - specialize (H1 (id y) (in_map id _ _ Hy)). lia.
  - specialize (H2 (id y) (in_map id _ _ Hy)). lia.
Qed.

Lemma id_matches_self p t : parseInt p = Some (id t) -> id_matches p t = true.
Proof. unfold id_matches. intros ->. apply Z.eqb_refl. Qed.

(** A path that matches no record: GET, PUT and DELETE all answer 404 and
    leave the store as it was. *)
Lemma no_match_not_found s p b :
  (forall t, In t (teaData s) -> id_matches p t = false) ->
  handle s (GetTea p) = (s, send 404 (PText "tea not found ")) /\
  handle s (PutTea p b) = (s, send 404 (PText "tea not found ")) /\
  handle s (DeleteTea p) = (s, send 404 (PText "tea not found")).
Proof.
  intros H. simpl. unfold get_tea, put_tea, delete_tea.
  rewrite (find_none_intro _ _ H), (findIndex_none _ _ H). auto.
Qed.

(** Without DELETE requests the array only grows by the created records. *)
Lemma run_no_delete s rs :
  forallb (fun r => negb (is_delete r)) rs = true ->
  let '(s', out) := run s rs in
  map id (teaData s') = map id (teaData s) ++ created out.
Proof.
  revert s. induction rs as [|r rs IH]; intros s Hd; simpl.
  - now rewrite app_nil_r.
  - simpl in Hd. apply andb_prop in Hd as [Hr Hd].
    pose proof (created_handle s r) as Hch.
    destruct (handle_cases s r) as [(Hp & t & Ht & Hid & _)
                                   |(Hp & _ & [Hm | (Hdel & _)])].
    + destruct (handle s r) as [s1 o]. specialize (IH s1 Hd).
      destruct (run s1 rs) as [s2 outs]. cbn [fst snd] in *.
      rewrite Hp in Hch. rewrite IH, Ht, created_cons, Hch, !map_app.
      simpl. rewrite Hid, <- app_assoc. reflexivity.
    + destruct (handle s r) as [s1 o]. specialize (IH s1 Hd).
      destruct (run s1 rs) as [s2 outs]. cbn [fst snd] in *.
      rewrite Hp in Hch. rewrite IH, Hm, created_cons, Hch. reflexivity.
    + rewrite Hdel in Hr. discriminate.
Qed.

(** * Claims *)

(** C1: every request preserves the store invariant (ids strictly
    increasing along [teaData], hence unique, all in [1, nextId)); and for
    every sequence of requests from the initial store, the ids of the
    records returned by the creations are 1, 2, ..., k in order, all below
    the final [nextId] (deleted ones included), and the ids left in the
    store are pairwise distinct. *)
Theorem C1_ids_increasing_unique_below_nextId :
  (forall s r, Inv s -> Inv (fst (handle s r))) /\
  (forall rs,
     let '(s', out) := run init rs in
     created out = zrange 1 (posts rs) /\
     StronglySorted Z.lt (created out) /\
     Forall (fun i => i < nextId s') (created out) /\
     NoDup (map id (teaData s')) /\
     Inv s').
Proof.
  split; [exact Inv_handle|].
  intros rs. pose proof (run_spec init rs Inv_init) as H.
  destruct (run init rs) as [s' out]. destruct H as (Hc & Hn & Hi).
  simpl in Hn. rewrite Hc. repeat split.
  - apply zrange_sorted.
  - eapply Forall_impl; [|apply zrange_bounds]. intros i Hb; simpl in Hb. lia.
  - apply ss_nodup, Hi.
  - exact (proj1 Hi).
  - exact (proj1 (proj2 Hi)).
  - exact (proj2 (proj2 Hi)).
Qed.

Lemma C1_witness :
  Inv init /\ Inv (fst (handle init (PostTeas []))).
Proof.
  assert (H : Inv init) by (unfold Inv; simpl; repeat constructor; lia).
  split; [exact H|]. exact (proj1 C1_ids_increasing_unique_below_nextId
                              init (PostTeas []) H).
Defined.

(** C2: in every reachable store, POST /teas with body [b] answers 201 with
    a record [t]; a following GET on a path naming [id t] answers 200 with
    [{id: t.id, name: b.name, price: b.price}]. *)
Theorem C2_create_then_get s b p :
  reachable s ->
  let '(s', r) := handle s (PostTeas b) in
  exists t, r = send 201 (PTea t) /\
    (parseInt p = Some (id t) ->
     snd (handle s' (GetTea p)) =
       send 200 (PTea {| id := id t; name := get_prop b "name";
                         price := get_prop b "price" |})).
Proof.
  intros Hr. apply reachable_Inv in Hr as (_ & Hb & _).
  simpl. eexists. split; [reflexivity|]. intros Hp. simpl.
  unfold get_tea. simpl. rewrite find_split; [reflexivity| |].
  - apply id_matches_self, Hp.
  - intros y Hy. unfold id_matches. rewrite Hp. apply Z.eqb_neq.
    rewrite Forall_forall in Hb. specialize (Hb (id y) (in_map id _ _ Hy)).
    simpl in Hp |- *. lia.
Qed.

Lemma C2_witness :
  reachable init /\
  snd (handle (fst (handle init (PostTeas [("name"%string, JStr "Green Tea")])))
              (GetTea "1")) =
    send 200 (PTea {| id := 1; name := JStr "Green Tea"; price := JUndefined |}).
Proof.
  assert (Hr : reachable init) by (exists []; reflexivity).
  split; [exact Hr|].
  destruct (C2_create_then_get init [("name"%string, JStr "Green Tea")] "1" Hr)
    as (t & Ht & Hget).
  injection Ht as <-. apply Hget. reflexivity.
Defined.

(** C3: when the path names no record of the store, PUT and DELETE answer
    404 "tea not found" and leave [teaData] and [nextId] unchanged. *)
Theorem C3_missing_id_put_delete s p b :
  (forall t, In t (teaData s) -> parseInt p <> Some (id t)) ->
  handle s (PutTea p b) = (s, send 404 (PText "tea not found ")) /\
  handle s (DeleteTea p) = (s, send 404 (PText "tea not found")).
Proof.
  intros H.
  assert (Hm : forall t, In t (teaData s) -> id_matches p t = false).
  { intros t Ht. unfold id_matches. specialize (H t Ht).
    destruct (parseInt p) as [z|] eqn:E; [|reflexivity]. apply Z.eqb_neq.
    intros Hz. apply H. rewrite ?E. now rewrite Hz. }
  destruct (no_match_not_found s p b Hm) as (_ & Hput & Hdel). auto.
Qed.

Lemma C3_witness :
  handle init (PutTea "1" []) = (init, send 404 (PText "tea not found ")) /\
  handle init (DeleteTea "1") = (init, send 404 (PText "tea not found")).
Proof.
  apply C3_missing_id_put_delete. intros t [].
Defined.

(** C4: in a reachable store, DELETE on a path naming the id of a record
    [t] removes exactly [t] from [teaData], keeps the other records in
    their order and [nextId] as it was; a following GET on the same path
    answers 404. *)
Theorem C4_delete_removes_exactly_one s t p :
  reachable s -> In t (teaData s) -> parseInt p = Some (id t) ->
  exists l1 l2, teaData s = l1 ++ t :: l2 /\
    teaData (fst (handle s (DeleteTea p))) = l1 ++ l2 /\
    nextId (fst (handle s (DeleteTea p))) = nextId s /\
    snd (handle (fst (handle s (DeleteTea p))) (GetTea p)) =
      send 404 (PText "tea not found ").
Proof.
  intros Hr Ht Hp. apply reachable_Inv in Hr.
  destruct (unique_match s t p Hr Ht Hp) as (l1 & l2 & Hl & H1 & H2).
  assert (Hi : findIndex (id_matches p) (teaData s) = Z.of_nat (List.length l1)).
  { rewrite Hl. apply findIndex_split; [apply id_matches_self|]; assumption. }
  assert (Hd : fst (handle s (DeleteTea p)) =
               {| teaData := l1 ++ l2; nextId := nextId s |}).
  { simpl. unfold delete_tea. rewrite Hi.
    destruct (Z.of_nat (List.length l1) =? -1) eqn:E; [lia|].
    simpl. rewrite Hl, splice1_split. reflexivity. }
  exists l1, l2. rewrite Hd. repeat split; [assumption|].
  simpl. unfold get_tea. simpl. rewrite find_none_intro; [reflexivity|].
  intros y Hy. apply in_app_or in Hy as [Hy|Hy]; auto.
Qed.

Lemma C4_witness :
  let s := fst (handle init (PostTeas [])) in
  reachable s /\
  snd (handle (fst (handle s (DeleteTea "1"))) (GetTea "1")) =
    send 404 (PText "tea not found ").
Proof.
  intros s.
  assert (Hr : reachable s) by (exists [PostTeas []]; reflexivity).
  split; [exact Hr|].
  destruct (C4_delete_removes_exactly_one s
              {| id := 1; name := JUndefined; price := JUndefined |} "1"
              Hr (or_introl eq_refl) eq_refl)
    as (l1 & l2 & _ & _ & _ & H). exact H.
Defined.

(** C5: in a reachable store, PUT with body [b] on a path naming the id of
    a record [t] replaces [t], at its place, by the record with the same id
    whose name and price are both taken from [b], keeps [nextId], and
    answers 200 with that record. *)
Theorem C5_update_overwrites_name_and_price s t p b :
  reachable s -> In t (teaData s) -> parseInt p = Some (id t) ->
  let t' := {| id := id t; name := get_prop b "name";
               price := get_prop b "price" |} in
  exists l1 l2, teaData s = l1 ++ t :: l2 /\
    handle s (PutTea p b) =
      ({| teaData := l1 ++ t' :: l2; nextId := nextId s |},
       send 200 (PTea t')).
Proof.
  intros Hr Ht Hp t'. apply reachable_Inv in Hr.
  destruct (unique_match s t p Hr Ht Hp) as (l1 & l2 & Hl & H1 & _).
  exists l1, l2. split; [assumption|].
  simpl. unfold put_tea. rewrite Hl, find_split, mutate_found_split;
    [reflexivity| |assumption| |assumption]; apply id_matches_self, Hp.
Qed.

Lemma C5_witness :
  let s := fst (handle init (PostTeas [])) in
  reachable s /\
  snd (handle s (PutTea "1" [("name"%string, JStr "Oolong")])) =
    send 200 (PTea {| id := 1; name := JStr "Oolong"; price := JUndefined |}).
Proof.
  intros s.
  assert (Hr : reachable s) by (exists [PostTeas []]; reflexivity).
  split; [exact Hr|].
  destruct (C5_update_overwrites_name_and_price s
              {| id := 1; name := JUndefined; price := JUndefined |} "1"
              [("name"%string, JStr "Oolong")] Hr (or_introl eq_refl) eq_refl)
    as (l1 & l2 & _ & H). rewrite H. reflexivity.
Defined.

(** C6: from the initial store, after a sequence of requests with [k]
    POSTs and no DELETE, the records of [teaData] (what GET /teas sends)
    are the [k] created ones in creation order (ids 1..k, the ids the
    POSTs returned, in that order); two GET /teas in a row give the same
    response twice and leave the store unchanged. *)
Theorem C6_list_after_creates rs :
  forallb (fun r => negb (is_delete r)) rs = true ->
  let '(s', out) := run init rs in
  map id (teaData s') = created out /\
  created out = zrange 1 (posts rs) /\
  List.length (teaData s') = posts rs /\
  run s' [GetTeas; GetTeas] =
    (s', [send 200 (PTeas (teaData s')); send 200 (PTeas (teaData s'))]).
Proof.
  intros Hd. pose proof (run_no_delete init rs Hd) as H.
  pose proof (run_spec init rs Inv_init) as Hs.
  destruct (run init rs) as [s' out]. destruct Hs as (Hc & _ & _).
  simpl in H. split; [exact H|]. split; [exact Hc|]. split; [|reflexivity].
  rewrite <- (length_map id), H, Hc. apply zrange_length.
Qed.

Lemma C6_witness :
  let '(s', out) := run init [PostTeas []; PostTeas []] in
  map id (teaData s') = [1; 2] /\
  run s' [GetTeas; GetTeas] =
    (s', [send 200 (PTeas (teaData s')); send 200 (PTeas (teaData s'))]).
Proof.
  pose proof (C6_list_after_creates [PostTeas []; PostTeas []] eq_refl) as H.
  destruct (run init [PostTeas []; PostTeas []]) as [s' out].
  destruct H as (H1 & H2 & _ & H4). split; [|exact H4].
  rewrite H1, H2. reflexivity.
Defined.

(** C7: when the path names the id of a record of the store, DELETE
    answers 204 with an empty body. *)
Theorem C7_delete_no_content s t p :
  In t (teaData s) -> parseInt p = Some (id t) ->
  snd (handle s (DeleteTea p)) = {| status := 204; body := None |}.
Proof.
  intros Ht Hp. simpl. unfold delete_tea.
  destruct (find (id_matches p) (teaData s)) as [x|] eqn:E.
  - destruct (find_some _ _ _ E) as (l1 & l2 & Hl & Hx & Hl1).
    rewrite Hl, findIndex_split by assumption.
    destruct (Z.of_nat (List.length l1) =? -1) eqn:E'; [|reflexivity].
    apply Z.eqb_eq in E'. lia.
  - pose proof (find_none _ _ E t Ht) as Hf.
    rewrite (id_matches_self p t Hp) in Hf. discriminate.
Qed.

Lemma C7_witness :
  snd (handle (fst (handle init (PostTeas []))) (DeleteTea "1")) =
    {| status := 204; body := None |}.
Proof.
  apply (C7_delete_no_content _
           {| id := 1; name := JUndefined; price := JUndefined |} "1");
    [left; reflexivity|reflexivity].
Defined.

(** C8: POST /teas succeeds on every store and every body, whatever its
    [name] and [price] (missing ones read as [undefined]): it answers 201
    with the new record and appends it; there is no validation. *)
Theorem C8_create_always_succeeds s b :
  let t := {| id := nextId s; name := get_prop b "name";
              price := get_prop b "price" |} in
  handle s (PostTeas b) =
    ({| teaData := teaData s ++ [t]; nextId := nextId s + 1 |},
     {| status := 201; body := Some (PTea t) |}).
Proof. reflexivity. Qed.

(** A store holding one record, of id 1, as after
    [POST /teas {"name": "Green Tea", "price": 100}]. *)
Definition one_tea_store : state :=
  fst (handle init (PostTeas [("name"%string, JStr "Green Tea");
                              ("price"%string, JNum 100)])).

(** C9 (as stated, refuted): the path segment ["1abc"] is not an integer,
    but [parseInt("1abc")] is 1, so GET and PUT answer 200 and DELETE
    answers 204 on the store holding the record of id 1; so do ["1.5"]
    and ["0x1"]. *)
Lemma C9_counterexample :
  status (snd (handle one_tea_store (GetTea "1abc"))) = 200 /\
  status (snd (handle one_tea_store (PutTea "1abc" []))) = 200 /\
  status (snd (handle one_tea_store (DeleteTea "1abc"))) = 204 /\
  status (snd (handle one_tea_store (GetTea "1.5"))) = 200 /\
  status (snd (handle one_tea_store (GetTea "0x1"))) = 200.
Proof. vm_compute. repeat split. Qed.

(** C9 (amended): on every store, a path segment on which [parseInt]
    gives [NaN] (no integer prefix after leading white space: no digits
    after an optional sign, or no hex digits after [0x]) makes GET, PUT and
    DELETE answer 404 and leaves the store unchanged. *)
Theorem C9_nan_id_not_found s p b :
  parseInt p = None ->
  handle s (GetTea p) = (s, send 404 (PText "tea not found ")) /\
  handle s (PutTea p b) = (s, send 404 (PText "tea not found ")) /\
  handle s (DeleteTea p) = (s, send 404 (PText "tea not found")).
Proof.
  intros Hp. apply no_match_not_found.
  intros t _. unfold id_matches. now rewrite Hp.
Qed.

Lemma C9_witness :
  handle one_tea_store (GetTea "abc") =
    (one_tea_store, send 404 (PText "tea not found ")) /\
  handle one_tea_store (PutTea "0x" []) =
    (one_tea_store, send 404 (PText "tea not found ")) /\
  handle one_tea_store (DeleteTea "-") =
    (one_tea_store, send 404 (PText "tea not found")).
Proof.
  split; [|split].
  - apply (C9_nan_id_not_found one_tea_store "abc" []). reflexivity.
  - apply (C9_nan_id_not_found one_tea_store "0x" []). reflexivity.
  - apply (C9_nan_id_not_found one_tea_store "-" []). reflexivity.
Defined.

(** C10: POST /teas reads only the [name] and [price] properties of the
    body: its outcome is that of the body holding just those two, an [id]
    property in the body changes nothing, and the new record's id is the
    store's [nextId]. *)
Theorem C10_create_ignores_body_id s b :
  handle s (PostTeas b) =
    handle s (PostTeas [("name"%string, get_prop b "name");
                        ("price"%string, get_prop b "price")]) /\
  (forall v, handle s (PostTeas (("id"%string, v) :: b)) = handle s (PostTeas b)) /\
  exists t, snd (handle s (PostTeas b)) = send 201 (PTea t) /\ id t = nextId s.
Proof.
  split; [reflexivity|]. split.
  - intros v. reflexivity.
  - eexists. split; reflexivity.
Qed.

(** * Further properties of the route handlers *)

(** ** Helper lemmas *)

Lemma find_skip {A} (h : A -> bool) (l1 l2 : list A) x :
  h x = false -> find h (l1 ++ x :: l2) = find h (l1 ++ l2).
Proof.
  intros Hx. induction l1 as [|y l1 IH]; simpl.
  - now rewrite Hx.
  - now rewrite IH.
Qed.

Lemma find_mutate_other {A} (f h : A -> bool) (g : A -> A) (l : list A) :
  (forall x, f x = true -> h x = false /\ h (g x) = false) ->
  find h (mutate_found f g l) = find h l.
Proof.
  intros H. induction l as [|y l IH]; simpl; [reflexivity|].
  destruct (f y) eqn:Ey; simpl.
  - destruct (H y Ey) as [H1 H2]. now rewrite H1, H2.
  - now rewrite IH.
Qed.

Lemma find_mutate_same {A} (f : A -> bool) (g : A -> A) (l : list A) :
  (forall x, f (g x) = f x) ->
  find f (mutate_found f g l) = option_map g (find f l).
Proof.
  intros H. induction l as [|y l IH]; simpl; [reflexivity|].
  destruct (f y) eqn:Ey; simpl.
  - now rewrite H, Ey.
  - now rewrite Ey.
Qed.

Lemma mutate_found_twice {A} (f : A -> bool) (g : A -> A) (l : list A) :
  (forall x, f (g x) = f x) -> (forall x, g (g x) = g x) ->
  mutate_found f g (mutate_found f g l) = mutate_found f g l.
Proof.
  intros H1 H2. induction l as [|y l IH]; simpl; [reflexivity|].
  destruct (f y) eqn:Ey; simpl.
  - now rewrite H1, Ey, H2.
  - now rewrite Ey, IH.
Qed.

Lemma id_matches_parse p q t :
  parseInt p = parseInt q -> id_matches p t = id_matches q t.
Proof. unfold id_matches. now intros ->. Qed.

Lemma id_matches_true p t :
  id_matches p t = true -> parseInt p = Some (id t).
Proof.
  unfold id_matches. destruct (parseInt p) as [n|]; [|discriminate].
  intros H. apply Z.eqb_eq in H. now rewrite H.
Qed.

Lemma id_matches_other p q t i j :
  parseInt p = Some i -> parseInt q = Some j -> i <> j ->
  id_matches p t = true -> id_matches q t = false.
Proof.
  unfold id_matches. intros -> -> Hij Ht. apply Z.eqb_eq in Ht.
  apply Z.eqb_neq. lia.
Qed.

(** The outcome of DELETE: either nothing matches and the store is
    untouched, or the first matching record is cut out. *)
Lemma delete_cases s p :
  (delete_tea s p = (s, send 404 (PText "tea not found")) /\
   forall t, In t (teaData s) -> id_matches p t = false) \/
  (exists l1 x l2, teaData s = l1 ++ x :: l2 /\ id_matches p x = true /\
     (forall y, In y l1 -> id_matches p y = false) /\
     delete_tea s p = ({| teaData := l1 ++ l2; nextId := nextId s |},
                       send 204 (PText "deleted "))).
Proof.
  unfold delete_tea.
  destruct (find (id_matches p) (teaData s)) as [x|] eqn:E.
  - right. destruct (find_some _ _ _ E) as (l1 & l2 & Hl & Hx & Hl1).
    exists l1, x, l2. repeat split; auto.
    rewrite Hl, findIndex_split by assumption.
    destruct (Z.of_nat (List.length l1) =? -1) eqn:E'.
    + apply Z.eqb_eq in E'. lia.
    + now rewrite splice1_split.
  - left. pose proof (find_none _ _ E) as Hn.
    now rewrite (findIndex_none _ _ Hn).
Qed.

(** ** GET /teas/:id *)

(** X1: in a reachable store, GET on a path naming the id of a record [t]
    answers 200 with [t] and leaves the store as it was. *)
Theorem get_tea_finds_record s t p :
  reachable s -> In t (teaData s) -> parseInt p = Some (id t) ->
  handle s (GetTea p) = (s, send 200 (PTea t)).
Proof.
  intros Hr Ht Hp. apply reachable_Inv in Hr.
  destruct (unique_match s t p Hr Ht Hp) as (l1 & l2 & Hl & H1 & _).
  simpl. unfold get_tea. rewrite Hl, find_split; [reflexivity| |assumption].
  apply id_matches_self, Hp.
Qed.

Lemma get_tea_finds_record_witness :
  handle one_tea_store (GetTea "1") =
    (one_tea_store,
     send 200 (PTea {| id := 1; name := JStr "Green Tea"; price := JNum 100 |})).
Proof.
  apply get_tea_finds_record.
  - exists [PostTeas [("name"%string, JStr "Green Tea");
                      ("price"%string, JNum 100)]]. reflexivity.
  - left. reflexivity.
  - reflexivity.
Defined.

(** X2: on every store, a 200 answer of GET /teas/:id carries a record of
    the store whose id is what [parseInt] reads from the path. *)
Theorem get_tea_sound s p t :
  snd (handle s (GetTea p)) = send 200 (PTea t) ->
  In t (teaData s) /\ parseInt p = Some (id t).
Proof.
  simpl. unfold get_tea.
  destruct (find (id_matches p) (teaData s)) as [x|] eqn:E; simpl;
    [|discriminate].
  intros [= <-]. destruct (find_some _ _ _ E) as (l1 & l2 & Hl & Hx & _).
  split.
  - rewrite Hl. apply in_or_app. right. left. reflexivity.
  - now apply id_matches_true.
Qed.

Lemma get_tea_sound_witness :
  In {| id := 1; name := JStr "Green Tea"; price := JNum 100 |}
     (teaData one_tea_store) /\
  parseInt " +1" = Some 1.
Proof.
  apply (get_tea_sound one_tea_store " +1"). reflexivity.
Defined.

(** ** Errors and read-only requests *)

(** X3: a request answered with 404 (on any route) leaves the store,
    [teaData] and [nextId], unchanged. *)
Theorem not_found_leaves_store s r :
  status (snd (handle s r)) = 404 -> fst (handle s r) = s.
Proof.
  destruct r as [b| |p|p b|p]; simpl; try discriminate.
  - unfold get_tea. destruct (find _ _); reflexivity.
  - unfold put_tea. destruct (find _ _); simpl; [discriminate|reflexivity].
  - destruct (delete_cases s p) as [[-> _]|(l1 & x & l2 & _ & _ & _ & ->)];
      simpl; [reflexivity|discriminate].
Qed.

Lemma not_found_leaves_store_witness :
  fst (handle one_tea_store (DeleteTea "2")) = one_tea_store.
Proof. apply not_found_leaves_store. reflexivity. Defined.

(** X4: every response has status 200, 201, 204 or 404; only POST answers
    201 and only DELETE answers 204. *)
Theorem status_codes s r :
  let c := status (snd (handle s r)) in
  (c = 200 \/ c = 201 \/ c = 204 \/ c = 404) /\
  (c = 201 <-> is_post r = true) /\
  (c = 204 -> is_delete r = true).
Proof.
  destruct r as [b| |p|p b|p]; simpl.
  - intuition (try discriminate; try lia).
  - intuition (try discriminate; try lia).
  - unfold get_tea. destruct (find _ _); simpl; intuition (try discriminate; try lia).
  - unfold put_tea. destruct (find _ _); simpl; intuition (try discriminate; try lia).
  - destruct (delete_cases s p) as [[-> _]|(l1 & x & l2 & _ & _ & _ & ->)];
      simpl; intuition (try discriminate; try lia).
Qed.

Lemma status_codes_witness : is_delete (DeleteTea "1") = true.
Proof.
  apply (proj2 (proj2 (status_codes one_tea_store (DeleteTea "1")))).
  reflexivity.
Defined.

(** X5: any sequence of GET /teas and GET /teas/:id requests leaves the
    store unchanged. *)
Theorem gets_read_only s rs :
  forallb is_get rs = true -> fst (run s rs) = s.
Proof.
  revert s. induction rs as [|r rs IH]; intros s Hg; simpl; [reflexivity|].
  simpl in Hg. apply andb_prop in Hg as [Hr Hg].
  assert (Hs : fst (handle s r) = s).
  { destruct r as [b| |p|p b|p]; try discriminate; [reflexivity|].
    simpl. unfold get_tea. destruct (find _ _); reflexivity. }
  destruct (handle s r) as [s1 o]. simpl in Hs. subst s1.
  specialize (IH s Hg). destruct (run s rs). exact IH.
Qed.

Lemma gets_read_only_witness :
  fst (run one_tea_store [GetTeas; GetTea "1"; GetTea "x"]) = one_tea_store.
Proof. apply gets_read_only. reflexivity. Defined.

(** X6: from any store, after any sequence of requests [nextId] has grown
    by exactly the number of POST requests: no other route touches it. *)
Theorem nextId_counts_posts s rs :
  nextId (fst (run s rs)) = nextId s + Z.of_nat (posts rs).
Proof.
  revert s. induction rs as [|r rs IH]; intros s; simpl; [lia|].
  pose proof (nextId_handle s r) as Hn.
  destruct (handle s r) as [s1 o]. specialize (IH s1).
  destruct (run s1 rs) as [s2 outs]. simpl in *. rewrite IH, Hn.
  unfold posts. simpl. destruct (is_post r); simpl; lia.
Qed.

(** ** PUT /teas/:id *)

(** The record PUT writes: same id, name and price from the body. *)
Lemma put_upd_matches p b t :
  id_matches p {| id := id t; name := get_prop b "name";
                  price := get_prop b "price" |} = id_matches p t.
Proof. reflexivity. Qed.

(** X7: on every store, sending the same PUT twice gives the same store and
    the same response as sending it once. *)
Theorem put_idempotent s p b :
  handle (fst (handle s (PutTea p b))) (PutTea p b) = handle s (PutTea p b).
Proof.
  simpl. unfold put_tea.
  destruct (find (id_matches p) (teaData s)) as [x|] eqn:E; simpl; [|now rewrite E].
  rewrite find_mutate_same by (intros; apply put_upd_matches).
  rewrite E. simpl. rewrite mutate_found_twice; [reflexivity| |].
  - intros; apply put_upd_matches.
  - intros; reflexivity.
Qed.

(** X8: on every store, PUT keeps the number of records, their ids in
    order, and [nextId]. *)
Theorem put_keeps_ids s p b :
  let s' := fst (handle s (PutTea p b)) in
  map id (teaData s') = map id (teaData s) /\ nextId s' = nextId s.
Proof.
  simpl. unfold put_tea. destruct (find _ _); simpl; [|auto].
  split; [|reflexivity]. apply mutate_found_map. reflexivity.
Qed.

(** X9: on every store, a GET following a PUT on the same path answers
    what the PUT answered: the updated record with 200, or 404 when no
    record matched. *)
Theorem put_then_get s p b :
  snd (handle (fst (handle s (PutTea p b))) (GetTea p)) =
  snd (handle s (PutTea p b)).
Proof.
  simpl. unfold put_tea, get_tea.
  destruct (find (id_matches p) (teaData s)) as [x|] eqn:E; simpl;
    [|now rewrite E].
  rewrite find_mutate_same by (intros; apply put_upd_matches).
  now rewrite E.
Qed.

(** X10: on every store, PUT on one path leaves the answer of GET on a
    path naming another id unchanged. *)
Theorem put_other_get s p q b i j :
  parseInt p = Some i -> parseInt q = Some j -> i <> j ->
  snd (handle (fst (handle s (PutTea p b))) (GetTea q)) =
  snd (handle s (GetTea q)).
Proof.
  intros Hp Hq Hij. simpl. unfold put_tea, get_tea.
  destruct (find (id_matches p) (teaData s)); simpl; [|reflexivity].
  rewrite find_mutate_other; [now destruct (find (id_matches q) (teaData s))|].
  intros x Hx. split; apply (id_matches_other p q _ i j Hp Hq Hij); exact Hx.
Qed.

Lemma put_other_get_witness :
  snd (handle (fst (handle one_tea_store (PutTea "2" []))) (GetTea "1")) =
  snd (handle one_tea_store (GetTea "1")).
Proof.
  apply (put_other_get one_tea_store "2" "1" [] 2 1);
    [reflexivity|reflexivity|lia].
Defined.

(** ** DELETE /teas/:id *)

(** X11: on every store, a DELETE answered with 204 removed exactly one
    record, one whose id is what [parseInt] reads from the path (the first
    such), kept the others in order, and kept [nextId]. *)
Theorem delete_success_removes_one s p :
  status (snd (handle s (DeleteTea p))) = 204 ->
  exists l1 x l2, teaData s = l1 ++ x :: l2 /\
    parseInt p = Some (id x) /\
    (forall y, In y l1 -> parseInt p <> Some (id y)) /\
    teaData (fst (handle s (DeleteTea p))) = l1 ++ l2 /\
    nextId (fst (handle s (DeleteTea p))) = nextId s.
Proof.
  simpl.
  destruct (delete_cases s p) as [[-> _]|(l1 & x & l2 & Hl & Hx & Hl1 & ->)];
    simpl; [discriminate|].
  intros _. exists l1, x, l2. repeat split; auto.
  - now apply id_matches_true.
  - intros y Hy Hp. specialize (Hl1 y Hy).
    rewrite (id_matches_self p y Hp) in Hl1. discriminate.
Qed.

Lemma delete_success_removes_one_witness :
  teaData (fst (handle one_tea_store (DeleteTea "1"))) = [].
Proof.
  destruct (delete_success_removes_one one_tea_store "1" eq_refl)
    as (l1 & x & l2 & Hl & _ & _ & Hd & _).
  rewrite Hd. destruct l1 as [|y l1]; [|discriminate].
  destruct l2; [reflexivity|discriminate].
Defined.

(** X12: in a reachable store, a second DELETE on a path naming the id of
    a record answers 404 and changes nothing: the first one removed the
    only record with that id. *)
Theorem delete_twice_not_found s t p :
  reachable s -> In t (teaData s) -> parseInt p = Some (id t) ->
  let s1 := fst (handle s (DeleteTea p)) in
  handle s1 (DeleteTea p) = (s1, send 404 (PText "tea not found")).
Proof.
  intros Hr Ht Hp s1. apply reachable_Inv in Hr as (Hs & _ & _).
  unfold s1. simpl.
  destruct (delete_cases s p) as [[_ Hn]|(l1 & x & l2 & Hl & Hx & Hl1 & ->)].
  - exfalso. specialize (Hn t Ht). now rewrite id_matches_self in Hn.
  - simpl. apply (no_match_not_found _ _ []).
    rewrite Hl, map_app in Hs. simpl in Hs.
    destruct (ss_around _ _ _ Hs) as [_ H2]. rewrite Forall_forall in H2.
    apply id_matches_true in Hx.
    intros y Hy. apply in_app_or in Hy as [Hy|Hy]; [auto|].
    specialize (H2 (id y) (in_map id _ _ Hy)). unfold id_matches.
    rewrite Hx. apply Z.eqb_neq. lia.
Qed.

Lemma delete_twice_not_found_witness :
  let s1 := fst (handle one_tea_store (DeleteTea "1")) in
  handle s1 (DeleteTea "1") = (s1, send 404 (PText "tea not found")).
Proof.
  apply (delete_twice_not_found one_tea_store
           {| id := 1; name := JStr "Green Tea"; price := JNum 100 |}).
  - exists [PostTeas [("name"%string, JStr "Green Tea");
                      ("price"%string, JNum 100)]]. reflexivity.
  - left. reflexivity.
  - reflexivity.
Defined.

(** X13: on every store, DELETE on one path leaves the answer of GET on a
    path naming another id unchanged. *)
Theorem delete_other_get s p q i j :
  parseInt p = Some i -> parseInt q = Some j -> i <> j ->
  snd (handle (fst (handle s (DeleteTea p))) (GetTea q)) =
  snd (handle s (GetTea q)).
Proof.
  intros Hp Hq Hij. simpl.
  destruct (delete_cases s p) as [[-> _]|(l1 & x & l2 & Hl & Hx & _ & ->)];
    [reflexivity|].
  unfold get_tea. simpl. rewrite Hl, find_skip; [now destruct (find _ (l1 ++ l2))|].
  exact (id_matches_other p q x i j Hp Hq Hij Hx).
Qed.

Lemma delete_other_get_witness :
  snd (handle (fst (handle one_tea_store (DeleteTea "2"))) (GetTea "1")) =
  snd (handle one_tea_store (GetTea "1")).
Proof.
  apply (delete_other_get one_tea_store "2" "1" 2 1);
    [reflexivity|reflexivity|lia].
Defined.

(** ** Paths *)

(** X14: the three /teas/:id routes depend on the path segment only
    through [parseInt]: two segments it reads alike (such as "1", " +1",
    "01" and "1abc") get the same answer and the same store. *)
Theorem routes_depend_on_parseInt s p q b :
  parseInt p = parseInt q ->
  handle s (GetTea p) = handle s (GetTea q) /\
  handle s (PutTea p b) = handle s (PutTea q b) /\
  handle s (DeleteTea p) = handle s (DeleteTea q).
Proof.
  intros H. simpl. unfold get_tea, put_tea, delete_tea, id_matches.
  rewrite H. auto.
Qed.

Lemma routes_depend_on_parseInt_witness :
  handle one_tea_store (GetTea " +01") = handle one_tea_store (GetTea "1") /\
  handle one_tea_store (PutTea " +01" []) = handle one_tea_store (PutTea "1" []) /\
  handle one_tea_store (DeleteTea " +01") = handle one_tea_store (DeleteTea "1").
Proof. apply routes_depend_on_parseInt. reflexivity. Defined.

(** ** Composition of POST and DELETE *)

(** X15: in a reachable store, POST followed by DELETE on a path naming the
    new record's id gives back the records held before, in order; only
    [nextId] has moved on, so the id is not handed out again. *)
Theorem post_then_delete s b p :
  reachable s -> parseInt p = Some (nextId s) ->
  let s2 := fst (run s [PostTeas b; DeleteTea p]) in
  teaData s2 = teaData s /\ nextId s2 = nextId s + 1.
Proof.
  intros Hr Hp. apply reachable_Inv in Hr as (_ & Hb & _).
  simpl. unfold delete_tea. simpl.
  set (t := {| id := nextId s; name := get_prop b "name";
               price := get_prop b "price" |}).
  assert (Hl1 : forall y, In y (teaData s) -> id_matches p y = false).
  { intros y Hy. unfold id_matches. rewrite Hp. apply Z.eqb_neq.
    rewrite Forall_forall in Hb. specialize (Hb (id y) (in_map id _ _ Hy)).
    simpl in Hb. lia. }
  rewrite findIndex_split; [| apply id_matches_self, Hp | exact Hl1].
  destruct (Z.of_nat (List.length (teaData s)) =? -1) eqn:E.
  - apply Z.eqb_eq in E. lia.
  - simpl. rewrite splice1_split, app_nil_r. auto.
Qed.

Lemma post_then_delete_witness :
  teaData (fst (run one_tea_store [PostTeas []; DeleteTea "2"])) =
    teaData one_tea_store.
Proof.
  apply (post_then_delete one_tea_store [] "2").
  - exists [PostTeas [("name"%string, JStr "Green Tea");
                      ("price"%string, JNum 100)]]. reflexivity.
  - reflexivity.
Defined.
